(** * VectorPool: a shallow embedding of src/utils/Vector/VectorPool.ts

    The pool keeps an array [_pool] of references to mutable [Vector2D]
    objects and a counter [_count] of active vectors.  Because the code
    shares vector objects between the array and its callers (and, after
    [clear_index], between two array cells), the model keeps an explicit
    object store [heap]: a reference is a position in [heap], the array
    [_pool] holds references, and every method that writes a field of a
    vector writes the store.

    The methods throw (the TypeScript [throw]); a thrown exception does not
    roll back what was already written, so a failed method returns the
    state at the point of the throw. *)

From Stdlib Require Import ZArith Lia.
From stdpp Require Import base list.

Local Open Scope Z_scope.

(** A reference to an object of the store. *)
Abbreviation ref := nat (only parsing).

Section VectorPoolModel.

(** The components of a vector are JavaScript numbers; the pool only stores
    and copies them, so their type is abstract.  [zero] is the literal [0]
    (default arguments of [new], components given by the constructor), and
    [cos], [sin] stand for [Math.cos], [Math.sin]. *)
Context {num : Type} (zero : num) (cos sin : num -> num).

(** ** Data *)

(** A vector object: components and the optional back-reference
    [_pool_index] ([None] is [undefined]). *)
Record Vector2D := mkVector2D {
  x : num;
  y : num;
  _pool_index : option Z
}.

(** The pool object together with the store of vector objects. *)
Record VectorPool := mkVectorPool {
  heap : list Vector2D;
  _pool : list ref;
  _count : Z
}.

(** The exceptions: the two strings thrown by [clear_index], and the
    TypeError of a property access on [undefined]. *)
Inductive PoolError :=
| IndexOutOfRange   (** ['Index out of bound'] *)
| PoolEmpty         (** ['Pool is already cleared'] *)
| TypeError.

(** ** A state and exception monad *)

Inductive outcome (A : Type) :=
| Ok (a : A) (s : VectorPool)
| Throw (e : PoolError) (s : VectorPool).
Arguments Ok {A} a s.
Arguments Throw {A} e s.

Definition M (A : Type) := VectorPool -> outcome A.

Definition ret {A} (a : A) : M A := fun s => Ok a s.

Definition bind {A B} (m : M A) (k : A -> M B) : M B :=
  fun s => match m s with
           | Ok a s' => k a s'
           | Throw e s' => Throw e s'
           end.

Definition throw {A} (e : PoolError) : M A := fun s => Throw e s.

Definition get : M VectorPool := fun s => Ok s s.

Definition put (s : VectorPool) : M unit := fun _ => Ok tt s.

(** The state after running [m], whether it returned or threw. *)
Definition exec_state {A} (m : M A) (s : VectorPool) : VectorPool :=
  match m s with Ok _ s' => s' | Throw _ s' => s' end.

Local Notation "'do' x <- m ; k" := (bind m (fun x => k))
  (at level 200, x name, m at level 100, right associativity).
Local Notation "m ;; k" := (bind m (fun _ => k))
  (at level 100, right associativity).

(** ** Store and array primitives *)

(** Reading a field of the object [r]. *)
Definition deref (r : ref) : M Vector2D :=
  fun s => match heap s !! r with
           | Some v => Ok v s
           | None => Throw TypeError s
           end.

(** Writing the object [r]. *)
Definition store (r : ref) (v : Vector2D) : M unit :=
  fun s => Ok tt (mkVectorPool (<[r := v]> (heap s)) (_pool s) (_count s)).

(** [new Vector2D(...)]: a fresh object. *)
Definition alloc (v : Vector2D) : M ref :=
  fun s => Ok (length (heap s))
              (mkVectorPool (heap s ++ [v]) (_pool s) (_count s)).

(** [a[i]] on a JavaScript array: [undefined] below 0 and past the end. *)
Definition arr_get {A} (l : list A) (i : Z) : option A :=
  if i <? 0 then None else l !! Z.to_nat i.

(** [this._pool[i]] where the result is then dereferenced: reading a field
    of [undefined] is a TypeError. *)
Definition pool_get (i : Z) : M ref :=
  fun s => match arr_get (_pool s) i with
           | Some r => Ok r s
           | None => Throw TypeError s
           end.

(** [this._pool[i] = r] for an index inside the array. *)
Definition pool_set (i : Z) (r : ref) : M unit :=
  fun s => Ok tt (mkVectorPool (heap s) (<[Z.to_nat i := r]> (_pool s)) (_count s)).

(** [this._pool.push(r)]. *)
Definition pool_push (r : ref) : M unit :=
  fun s => Ok tt (mkVectorPool (heap s) (_pool s ++ [r]) (_count s)).

(** [this._count = c]. *)
Definition set_count (c : Z) : M unit :=
  fun s => Ok tt (mkVectorPool (heap s) (_pool s) c).

(** ** Vector2D methods

    Vector2D.ts is not part of the sources at hand. *)

(** Modelled from the spec: [new Vector2D(x, y, index)] (file Vector2D.ts
    missing) is a vector with components [(x, y)] and [_pool_index = index]. *)
Definition new_Vector2D (x0 y0 : num) (i : Z) : Vector2D :=
  mkVector2D x0 y0 (Some i).

(** Modelled from the spec: [Vector2D.set(x, y)] (file Vector2D.ts missing)
    assigns the two components and returns [this]. *)
Definition vset (r : ref) (x0 y0 : num) : M ref :=
  do v <- deref r;
  store r (mkVector2D x0 y0 (_pool_index v));;
  ret r.

(** Modelled from the spec: [Vector2D.copy(source)] (file Vector2D.ts
    missing) copies the components of [source] into [this], returns [this]. *)
Definition vcopy (r src : ref) : M ref :=
  do vs <- deref src;
  do v <- deref r;
  store r (mkVector2D (x vs) (y vs) (_pool_index v));;
  ret r.

(** Modelled from the spec: [Vector2D.fromAngle(angle)] (file Vector2D.ts
    missing) makes [this] the unit vector at [angle], returns [this]. *)
Definition vfromAngle (r : ref) (angle : num) : M ref :=
  vset r (cos angle) (sin angle).

(** Modelled from the spec: [Vector2D.fromObservablePoint(point)] (file
    Vector2D.ts missing) copies the point's [x], [y], returns [this]. *)
Definition vfromObservablePoint (r : ref) (point : num * num) : M ref :=
  vset r (fst point) (snd point).

(** ** VectorPool methods *)

(** [get size()]: [this._pool.length]. *)
Definition size (s : VectorPool) : Z := Z.of_nat (length (_pool s)).

(** [get count()]. *)
Definition count (s : VectorPool) : Z := _count s.

(** The loop of the constructor: [this._pool[i] = new Vector2D(0, 0, i)]
    for [i] from [i0] on, [k] times. *)
Fixpoint init_slots (i0 : nat) (k : nat) : M unit :=
  match k with
  | O => ret tt
  | S k' =>
      do r <- alloc (new_Vector2D zero zero (Z.of_nat i0));
      pool_push r;;
      init_slots (S i0) k'
  end.

Definition empty_pool : VectorPool := mkVectorPool [] [] 0.

(** [constructor(initialPoolSize)]. *)
Definition construct (initialPoolSize : nat) : VectorPool :=
  exec_state (init_slots 0 initialPoolSize) empty_pool.

(** [new(x, y)]. *)
Definition new (x0 y0 : num) : M ref :=
  do s <- get;
  set_count (_count s + 1);;
  do s <- get;
  (if size s <? count s
   then do r <- alloc (new_Vector2D x0 y0 (count s - 1)); pool_push r
   else ret tt);;
  do s <- get;
  do r <- pool_get (count s - 1);
  vset r x0 y0.

(** [clone(vector)]: [this.new().copy(vector)]. *)
Definition clone (vector : ref) : M ref :=
  do r <- new zero zero;
  vcopy r vector.

(** [fromAngle(angle)]. *)
Definition fromAngle (angle : num) : M ref :=
  do r <- new zero zero;
  vfromAngle r angle.

(** [fromObservablePoint(point)]. *)
Definition fromObservablePoint (point : num * num) : M ref :=
  do r <- new zero zero;
  vfromObservablePoint r point.

(** [clear()]. *)
Definition clear : M unit := set_count 0.

(** [clear_index(index)]. *)
Definition clear_index (index : Z) : M unit :=
  do s <- get;
  if (index <? 0) || (_count s <=? index) then throw IndexOutOfRange
  else if _count s =? 0 then throw PoolEmpty
  else
    (if index + 1 <? _count s
     then
       (* this._pool[index]._pool_index = undefined *)
       do ri <- pool_get index;
       do vi <- deref ri;
       store ri (mkVector2D (x vi) (y vi) None);;
       (* this._pool[index] = this._pool[this._count-1] *)
       do rl <- pool_get (_count s - 1);
       pool_set index rl;;
       (* this._pool[index]._pool_index = index *)
       do r <- pool_get index;
       do v <- deref r;
       store r (mkVector2D (x v) (y v) (Some index))
     else ret tt);;
    do s <- get;
    set_count (_count s - 1).

(** ** Sequences of calls *)

(** One call of the pool's public interface. *)
Inductive op :=
| OpNew (x0 y0 : num)
| OpClone (vector : ref)
| OpFromAngle (angle : num)
| OpFromObservablePoint (point : num * num)
| OpClear
| OpClearIndex (index : Z).

(** The state after a call, whether it returned or threw (a caller that
    catches the exception continues from that state). *)
Definition run_op (o : op) (s : VectorPool) : VectorPool :=
  match o with
  | OpNew x0 y0 => exec_state (new x0 y0) s
  | OpClone v => exec_state (clone v) s
  | OpFromAngle a => exec_state (fromAngle a) s
  | OpFromObservablePoint p => exec_state (fromObservablePoint p) s
  | OpClear => exec_state clear s
  | OpClearIndex i => exec_state (clear_index i) s
  end.

Fixpoint run_ops (os : list op) (s : VectorPool) : VectorPool :=
  match os with
  | [] => s
  | o :: os' => run_ops os' (run_op o s)
  end.

(** Reading the components of the vector in array cell [i]. *)
Definition read_slot (s : VectorPool) (i : Z) : option (num * num) :=
  match arr_get (_pool s) i with
  | Some r => match heap s !! r with
              | Some v => Some (x v, y v)
              | None => None
              end
  | None => None
  end.

(** The back-reference of the vector in array cell [i]. *)
Definition slot_index (s : VectorPool) (i : Z) : option (option Z) :=
  match arr_get (_pool s) i with
  | Some r => option_map _pool_index (heap s !! r)
  | None => None
  end.

End VectorPoolModel.

Arguments Ok {num A} a s.
Arguments Throw {num A} e s.

(** Concrete runs over integer components. *)
Module Run.
(** Stand-ins for [Math.cos], [Math.sin] on integer components; none of the
    runs below calls [fromAngle]. *)
Definition zcos (_ : Z) : Z := 1.
Definition zsin (_ : Z) : Z := 0.
Definition st := @VectorPool Z.
(** [new(1,1)], [new(2,2)], [new(3,3)] on [new VectorPool()]: the
    vectors A, B, C in cells 0, 1, 2 (objects 0, 1, 2). *)
Definition three : st :=
  run_ops 0 zcos zsin [OpNew 1 1; OpNew 2 2; OpNew 3 3] (construct 0 0).
(** Then [clear_index(0)]. *)
Definition released : st := run_op 0 zcos zsin (OpClearIndex 0) three.
(** Then [new(4,4)]. *)
Definition refilled : st := run_op 0 zcos zsin (OpNew 4 4) released.
End Run.

(** ** Invariants *)

Section Invariants.
Context {num : Type}.

(** The bounds of the counter and the references of the array being
    objects of the store. *)
Definition pool_wf (s : @VectorPool num) : Prop :=
  0 <= _count s <= size s /\ Forall (fun r => (r < length (heap s))%nat) (_pool s).

(** Every cell's vector has [_pool_index] equal to the cell's position. *)
Definition slots_indexed (s : @VectorPool num) : Prop :=
  forall (k : nat) (r : ref), _pool s !! k = Some r ->
  exists v, heap s !! r = Some v /\ _pool_index v = Some (Z.of_nat k).

(** Every live cell's vector has [_pool_index] equal to its position. *)
Definition live_slots_indexed (s : @VectorPool num) : Prop :=
  forall (k : nat) (r : ref), Z.of_nat k < _count s -> _pool s !! k = Some r ->
  exists v, heap s !! r = Some v /\ _pool_index v = Some (Z.of_nat k).

(** Every free cell's vector has [_pool_index] unset. *)
Definition free_slots_unset (s : @VectorPool num) : Prop :=
  forall (k : nat) (r : ref), _count s <= Z.of_nat k -> _pool s !! k = Some r ->
  exists v, heap s !! r = Some v /\ _pool_index v = None.

(** The calls other than [clear_index]. *)
Definition no_release (o : @op num) : Prop :=
  match o with OpClearIndex _ => False | _ => True end.

End Invariants.

(** ** Proofs *)

Section Proofs.
Context {num : Type} (zero : num) (cos sin : num -> num).
Implicit Types (s : @VectorPool num).

Ltac unfold_m :=
  unfold new, clone, fromAngle, fromObservablePoint, clear, clear_index,
    vset, vcopy, vfromAngle, vfromObservablePoint,
    bind, ret, throw, get, put, deref, store, alloc, pool_get, pool_set,
    pool_push, set_count in *; cbn -[arr_get lookup insert] in *.

Lemma arr_get_nat {A} (l : list A) (i : Z) :
  0 <= i -> arr_get l i = l !! Z.to_nat i.
Proof. intros H. unfold arr_get. destruct (Z.ltb_spec i 0); [lia | done]. Qed.

Lemma new_spec s x0 y0 : pool_wf s ->
  (exists r v, _count s < size s /\ _pool s !! Z.to_nat (_count s) = Some r /\
     heap s !! r = Some v /\
     new x0 y0 s = Ok r (mkVectorPool (<[r := mkVector2D x0 y0 (_pool_index v)]> (heap s))
                                      (_pool s) (_count s + 1)))
  \/ (_count s = size s /\
      new x0 y0 s = Ok (length (heap s))
        (mkVectorPool (heap s ++ [mkVector2D x0 y0 (Some (_count s))])
                      (_pool s ++ [length (heap s)]) (_count s + 1))).
Proof.
  intros [[Hc0 Hcs] Hrefs].
  destruct (Z.eq_dec (_count s) (size s)) as [Heq | Hne].
  - right. split; [done |]. unfold_m.
    unfold size, count in *. cbn -[arr_get lookup insert].
    destruct (Z.ltb_spec (Z.of_nat (length (_pool s))) (_count s + 1)); [| lia].
    cbn -[arr_get lookup insert].
    rewrite arr_get_nat by lia.
    replace (Z.to_nat (_count s + 1 - 1)) with (length (_pool s)) by lia.
    rewrite list_lookup_middle by lia. cbn -[lookup insert].
    rewrite list_lookup_middle by lia. cbn -[lookup insert].
    rewrite insert_app_r_alt by lia. rewrite Nat.sub_diag. cbn.
    unfold new_Vector2D.
    replace (_count s + 1 - 1) with (_count s) by lia. done.
  - left.
    assert (Hlt : (Z.to_nat (_count s) < length (_pool s))%nat)
      by (unfold size in *; lia).
    destruct (lookup_lt_is_Some_2 _ _ Hlt) as [r Hr].
    assert (Hrh : (r < length (heap s))%nat)
      by (eapply (Forall_lookup_1 _ _ _ _ Hrefs Hr)).
    destruct (lookup_lt_is_Some_2 _ _ Hrh) as [v Hv].
    exists r, v. split; [lia |]. split; [done |]. split; [done |].
    unfold_m. unfold size, count in *. cbn -[arr_get lookup insert].
    destruct (Z.ltb_spec (Z.of_nat (length (_pool s))) (_count s + 1)); [lia |].
    cbn -[arr_get lookup insert].
    rewrite arr_get_nat by lia.
    replace (Z.to_nat (_count s + 1 - 1)) with (Z.to_nat (_count s)) by lia.
    rewrite Hr. cbn -[lookup insert]. rewrite Hv. done.
Qed.


(** A step that writes only the components of vectors: the array, the
    counter, the size of the store and every back-reference are kept. *)
Definition frames s s' : Prop :=
  _pool s' = _pool s /\ _count s' = _count s /\
  length (heap s') = length (heap s) /\
  forall r, option_map _pool_index (heap s' !! r) = option_map _pool_index (heap s !! r).

Lemma frames_refl s : frames s s.
Proof. repeat split; done. Qed.

Lemma frames_store s r v v' :
  heap s !! r = Some v -> _pool_index v' = _pool_index v ->
  frames s (mkVectorPool (<[r := v']> (heap s)) (_pool s) (_count s)).
Proof.
  intros Hv Hpi. repeat split; cbn; [apply length_insert |].
  intros r'. rewrite list_lookup_insert.
  case_decide as Hd; [destruct Hd as [-> _]; rewrite Hv; cbn; congruence | done].
Qed.

(** [set] and [copy] return their receiver and only write components. *)
Lemma vset_frames s r a b :
  (exists s', vset r a b s = Ok r s' /\ frames s s') \/ vset r a b s = Throw TypeError s.
Proof.
  unfold vset, bind, deref, store, ret; cbn -[lookup insert].
  destruct (heap s !! r) as [v |] eqn:Hv; [left | right; done].
  eexists; split; [done |]. by apply frames_store with v.
Qed.

Lemma vcopy_frames s r src :
  (exists s', vcopy r src s = Ok r s' /\ frames s s') \/ vcopy r src s = Throw TypeError s.
Proof.
  unfold vcopy, bind, deref, store, ret; cbn -[lookup insert].
  destruct (heap s !! src) as [vs |]; [| right; done].
  destruct (heap s !! r) as [v |] eqn:Hv; [left | right; done].
  eexists; split; [done |]. by apply frames_store with v.
Qed.

Lemma frames_wf s s' : frames s s' -> pool_wf s -> pool_wf s'.
Proof.
  intros (Hp & Hc & Hl & _) [Hb Hr]. unfold pool_wf, size in *.
  rewrite Hp, Hc, Hl. done.
Qed.

Lemma frames_indexed s s' : frames s s' -> slots_indexed s -> slots_indexed s'.
Proof.
  intros (Hp & _ & _ & Hpi) Hs k r Hk. rewrite Hp in Hk.
  destruct (Hs k r Hk) as (v & Hv & Hvi).
  specialize (Hpi r). rewrite Hv in Hpi.
  destruct (heap s' !! r) as [v' |]; cbn in Hpi; [| discriminate].
  exists v'. split; [done | congruence].
Qed.

(** [clear_index] outside [[0, _count)]: the first guard throws before
    anything is written. *)
Lemma clear_index_out_of_range s index :
  index < 0 \/ _count s <= index -> clear_index index s = Throw IndexOutOfRange s.
Proof.
  intros H. unfold clear_index, bind, get, throw; cbn.
  destruct (Z.ltb_spec index 0); destruct (Z.leb_spec (_count s) index);
    cbn; first [done | lia].
Qed.

(** [clear_index] on the last live cell only decrements the counter. *)
Lemma clear_index_last s index :
  0 <= index -> index + 1 = _count s ->
  clear_index index s = Ok tt (mkVectorPool (heap s) (_pool s) (_count s - 1)).
Proof.
  intros H0 H1. unfold clear_index, bind, get, throw, ret, set_count; cbn.
  destruct (Z.ltb_spec index 0); [lia |].
  destruct (Z.leb_spec (_count s) index); [lia |].
  destruct (Z.eqb_spec (_count s) 0); [lia |].
  destruct (Z.ltb_spec (index + 1) (_count s)); [lia |]. done.
Qed.

(** [clear_index] on a live cell that is not the last one. *)
Lemma clear_index_inner s index :
  pool_wf s -> 0 <= index -> index + 1 < _count s ->
  exists ri rl vi vl,
    _pool s !! Z.to_nat index = Some ri /\
    _pool s !! Z.to_nat (_count s - 1) = Some rl /\
    heap s !! ri = Some vi /\
    <[ri := mkVector2D (x vi) (y vi) None]> (heap s) !! rl = Some vl /\
    clear_index index s =
      Ok tt (mkVectorPool
               (<[rl := mkVector2D (x vl) (y vl) (Some index)]>
                  (<[ri := mkVector2D (x vi) (y vi) None]> (heap s)))
               (<[Z.to_nat index := rl]> (_pool s)) (_count s - 1)).
Proof.
  intros [[Hc0 Hcs] Hrefs] H0 H1. unfold size in Hcs.
  destruct (lookup_lt_is_Some_2 (_pool s) (Z.to_nat index)) as [ri Hri]; [lia |].
  destruct (lookup_lt_is_Some_2 (_pool s) (Z.to_nat (_count s - 1))) as [rl Hrl]; [lia |].
  pose proof (Forall_lookup_1 _ _ _ _ Hrefs Hri) as Hri'.
  pose proof (Forall_lookup_1 _ _ _ _ Hrefs Hrl) as Hrl'. cbn in Hri', Hrl'.
  destruct (lookup_lt_is_Some_2 (heap s) ri) as [vi Hvi]; [lia |].
  destruct (lookup_lt_is_Some_2 (<[ri := mkVector2D (x vi) (y vi) None]> (heap s)) rl)
    as [vl Hvl]; [rewrite length_insert; lia |].
  exists ri, rl, vi, vl. do 4 (split; [done |]).
  unfold clear_index, bind, get, throw, ret, set_count, pool_get, pool_set, deref, store.
  cbn -[arr_get lookup insert].
  destruct (Z.ltb_spec index 0); [lia |].
  destruct (Z.leb_spec (_count s) index); [lia |].
  destruct (Z.eqb_spec (_count s) 0); [lia |].
  destruct (Z.ltb_spec (index + 1) (_count s)); [| lia].
  cbn -[arr_get lookup insert].
  rewrite (arr_get_nat (_pool s) index), Hri by lia. cbn -[arr_get lookup insert].
  rewrite Hvi. cbn -[arr_get lookup insert].
  rewrite (arr_get_nat (_pool s) (_count s - 1)), Hrl by lia. cbn -[arr_get lookup insert].
  rewrite arr_get_nat by lia. rewrite list_lookup_insert_eq by lia.
  cbn -[arr_get lookup insert]. rewrite Hvl. done.
Qed.


(** The constructor's loop appends the objects [new Vector2D(0, 0, i)]. *)
Lemma init_slots_run k (h : list (@Vector2D num)) (p : list ref) c :
  init_slots zero (length h) k (mkVectorPool h p c) =
  Ok tt (mkVectorPool
           (h ++ ((fun i => new_Vector2D zero zero (Z.of_nat i)) <$> seq (length h) k))
           (p ++ seq (length h) k) c).
Proof.
  revert h p. induction k as [| k IH]; intros h p.
  - cbn. rewrite !app_nil_r. done.
  - cbn -[new_Vector2D]. unfold bind, alloc, pool_push; cbn -[new_Vector2D].
    replace (S (length h)) with (length (h ++ [new_Vector2D zero zero (Z.of_nat (length h))]))
      by (rewrite length_app; cbn; lia).
    rewrite IH. rewrite length_app. cbn -[new_Vector2D].
    replace (length h + 1)%nat with (S (length h)) by lia.
    rewrite <- !app_assoc. done.
Qed.

Lemma construct_eq n :
  construct zero n =
  mkVectorPool ((fun i => new_Vector2D zero zero (Z.of_nat i)) <$> seq 0 n) (seq 0 n) 0.
Proof.
  unfold construct, exec_state, empty_pool.
  pose proof (init_slots_run n [] [] 0) as H. cbn in H. rewrite H. done.
Qed.

Lemma construct_wf n : pool_wf (construct zero n).
Proof.
  rewrite construct_eq. split; cbn; unfold size; cbn.
  - rewrite length_seq. lia.
  - rewrite length_fmap, length_seq. apply Forall_seq. intros j Hj. lia.
Qed.

Lemma construct_indexed n : slots_indexed (construct zero n).
Proof.
  rewrite construct_eq. intros k r Hk; cbn in *.
  apply lookup_seq in Hk as [-> Hk].
  eexists. rewrite list_lookup_fmap, lookup_seq_lt by lia. cbn. split; [done |].
  unfold new_Vector2D. done.
Qed.

Lemma exec_bind_ok {A B} (m : M A) (k : A -> M B) s a s1 :
  m s = Ok a s1 -> exec_state (bind m k) s = exec_state (k a) s1.
Proof. intros H. unfold exec_state, bind. rewrite H. done. Qed.

Lemma vset_exec s r a b : frames s (exec_state (vset r a b) s).
Proof.
  unfold exec_state.
  destruct (vset_frames s r a b) as [(s' & Hm & Hf) | Hm]; rewrite Hm; [done | apply frames_refl].
Qed.

Lemma vcopy_exec s r src : frames s (exec_state (vcopy r src) s).
Proof.
  unfold exec_state.
  destruct (vcopy_frames s r src) as [(s' & Hm & Hf) | Hm]; rewrite Hm; [done | apply frames_refl].
Qed.

Lemma frames_size s s' : frames s s' -> size s' = size s.
Proof. intros (Hp & _). unfold size. rewrite Hp. done. Qed.

(** [new] keeps the bounds, never shrinks the array, keeps the cells
    indexed. *)
Lemma new_wf s x0 y0 : pool_wf s ->
  exists r s1, new x0 y0 s = Ok r s1 /\ pool_wf s1 /\ size s <= size s1 /\
    (slots_indexed s -> slots_indexed s1).
Proof.
  intros Hwf. pose proof Hwf as [[Hc0 Hcs] Hrefs].
  destruct (new_spec s x0 y0 Hwf) as [(r & v & Hlt & Hr & Hv & Hn) | [Heq Hn]];
    eexists _, _; (split; [exact Hn |]).
  - split; [| split].
    + unfold pool_wf, size in *; cbn. split; [lia |].
      rewrite length_insert. done.
    + unfold size; cbn. lia.
    + intros Hs k r' Hk; cbn in *.
      destruct (Hs k r' Hk) as (w & Hw & Hwi).
      rewrite list_lookup_insert. case_decide as Hd.
      * destruct Hd as [-> _]. rewrite Hv in Hw. injection Hw as <-.
        eexists; split; [done |]. cbn. done.
      * eexists; split; [exact Hw | done].
  - unfold size in *. split; [| split].
    + unfold pool_wf, size; cbn. split; [rewrite length_app; cbn; lia |].
      apply Forall_app; split.
      * eapply Forall_impl; [exact Hrefs |]. intros r' Hr'. cbn in *.
        rewrite length_app. cbn. lia.
      * constructor; [rewrite length_app; cbn; lia | constructor].
    + cbn. rewrite length_app. cbn. lia.
    + intros Hs k r' Hk; cbn in *.
      apply lookup_app_Some in Hk as [Hk | [Hge Hk]].
      * destruct (Hs k r' Hk) as (w & Hw & Hwi).
        exists w. split; [| done].
        rewrite lookup_app_l; [done |]. eapply lookup_lt_Some. exact Hw.
      * apply list_lookup_singleton_Some in Hk as [Hk0 <-].
        eexists. rewrite list_lookup_middle by done. split; [done |].
        cbn. f_equal. lia.
Qed.


(** A call that starts with [new] and then only writes the components of
    the returned vector. *)
Lemma new_then_wf s (k : ref -> M ref) :
  (forall r s1, frames s1 (exec_state (k r) s1)) -> pool_wf s ->
  pool_wf (exec_state (bind (new zero zero) k) s) /\
  size s <= size (exec_state (bind (new zero zero) k) s) /\
  (slots_indexed s -> slots_indexed (exec_state (bind (new zero zero) k) s)).
Proof.
  intros Hk Hwf.
  destruct (new_wf s zero zero Hwf) as (r & s1 & Hn & Hwf1 & Hsz & Hix).
  rewrite (exec_bind_ok _ _ _ _ _ Hn). specialize (Hk r s1).
  split; [| split].
  - exact (frames_wf _ _ Hk Hwf1).
  - rewrite (frames_size _ _ Hk). done.
  - intros Hs. exact (frames_indexed _ _ Hk (Hix Hs)).
Qed.

(** Every call other than [clear_index] keeps the bounds and the indexed
    cells, and never shrinks the array. *)
Lemma run_op_no_release o s : pool_wf s -> no_release o ->
  pool_wf (run_op zero cos sin o s) /\ size s <= size (run_op zero cos sin o s) /\
  (slots_indexed s -> slots_indexed (run_op zero cos sin o s)).
Proof.
  intros Hwf Ho. destruct o as [x0 y0 | v | a | pt | | i]; cbn.
  - destruct (new_wf s x0 y0 Hwf) as (r & s1 & Hn & H1 & H2 & H3).
    unfold exec_state. rewrite Hn. done.
  - apply new_then_wf; [intros; apply vcopy_exec | done].
  - apply new_then_wf; [intros; apply vset_exec | done].
  - apply new_then_wf; [intros; apply vset_exec | done].
  - destruct Hwf as [[Hc0 Hcs] Hrefs]. unfold clear, set_count, exec_state; cbn.
    split; [| split]; [split; cbn; [unfold size in *; cbn; lia | done] | unfold size; cbn; lia |].
    intros Hs. exact Hs.
  - destruct Ho.
Qed.

(** [clear_index] keeps the bounds and the array size, and keeps the live
    cells indexed. *)
Lemma run_op_release i s : pool_wf s ->
  pool_wf (run_op zero cos sin (OpClearIndex i) s) /\
  size s <= size (run_op zero cos sin (OpClearIndex i) s) /\
  (slots_indexed s -> live_slots_indexed (run_op zero cos sin (OpClearIndex i) s)).
Proof.
  intros Hwf. cbn. unfold exec_state.
  destruct (decide (i < 0 \/ _count s <= i)) as [Hout | Hin].
  { rewrite clear_index_out_of_range by done.
    split; [done | split; [lia |]]. intros Hs k r _ Hk. exact (Hs k r Hk). }
  destruct (decide (i + 1 = _count s)) as [Hlast | Hinner].
  { rewrite clear_index_last by lia. destruct Hwf as [[Hc0 Hcs] Hrefs].
    split; [split; cbn; [unfold size in *; cbn; lia | done] |].
    split; [unfold size; cbn; lia |].
    intros Hs k r _ Hk. exact (Hs k r Hk). }
  destruct (clear_index_inner s i Hwf) as (ri & rl & vi & vl & Hri & Hrl & Hvi & Hvl & ->);
    [lia | lia |].
  pose proof Hwf as [[Hc0 Hcs] Hrefs]. unfold size in Hcs.
  pose proof (Forall_lookup_1 _ _ _ _ Hrefs Hrl) as Hrl'. cbn in Hrl'.
  split; [| split].
  - unfold pool_wf, size; cbn. rewrite !length_insert. split; [lia |].
    apply Forall_insert; [exact Hrefs | exact Hrl'].
  - unfold size; cbn. rewrite length_insert. lia.
  - intros Hs k r Hk Hr; cbn in *.
    rewrite list_lookup_insert in Hr. case_decide as Hd.
    + destruct Hd as [<- _]. injection Hr as <-.
      eexists. rewrite list_lookup_insert_eq; [split; [done | cbn; f_equal; lia] |].
      rewrite length_insert. done.
    + destruct (Hs k r Hr) as (w & Hw & Hwi).
      destruct (Hs _ _ Hrl) as (wl & Hwl & Hwli).
      destruct (Hs _ _ Hri) as (wi & Hwi' & Hwii).
      assert (r <> rl).
      { intros ->. rewrite Hwl in Hw. injection Hw as ->. rewrite Hwli in Hwi.
        injection Hwi. lia. }
      assert (r <> ri).
      { intros ->. rewrite Hwi' in Hw. injection Hw as ->. rewrite Hwii in Hwi.
        injection Hwi. intros Hk'. apply Hd. split; [lia |].
        eapply lookup_lt_Some. exact Hri. }
      exists w. rewrite !list_lookup_insert_ne by done. done.
Qed.


Lemma run_ops_wf os s : pool_wf s ->
  pool_wf (run_ops zero cos sin os s) /\ size s <= size (run_ops zero cos sin os s).
Proof.
  revert s. induction os as [| o os IH]; intros s Hwf; cbn; [split; [done | lia] |].
  assert (H1 : pool_wf (run_op zero cos sin o s) /\ size s <= size (run_op zero cos sin o s)).
  { destruct o as [x0 y0 | v | a | pt | | i];
      [ destruct (run_op_no_release (OpNew x0 y0) s Hwf I) as (? & ? & _)
      | destruct (run_op_no_release (OpClone v) s Hwf I) as (? & ? & _)
      | destruct (run_op_no_release (OpFromAngle a) s Hwf I) as (? & ? & _)
      | destruct (run_op_no_release (OpFromObservablePoint pt) s Hwf I) as (? & ? & _)
      | destruct (run_op_no_release OpClear s Hwf I) as (? & ? & _)
      | destruct (run_op_release i s Hwf) as (? & ? & _) ]; split; assumption. }
  destruct H1 as [Hw1 Hs1]. destruct (IH _ Hw1) as [Hw2 Hs2]. split; [done | lia].
Qed.

Lemma run_ops_indexed os s : pool_wf s -> slots_indexed s -> Forall no_release os ->
  pool_wf (run_ops zero cos sin os s) /\ slots_indexed (run_ops zero cos sin os s).
Proof.
  revert s. induction os as [| o os IH]; intros s Hwf Hs Hos; cbn; [done |].
  apply Forall_cons in Hos as [Ho Hos].
  destruct (run_op_no_release o s Hwf Ho) as (Hw1 & _ & Hi1).
  apply IH; [done | apply Hi1; done | done].
Qed.

Lemma clear_index_count_zero s index :
  _count s = 0 -> clear_index index s = Throw IndexOutOfRange s.
Proof. intros H. apply clear_index_out_of_range. lia. Qed.

End Proofs.

(** ** The claims *)

Section Claims.
Context {num : Type} (zero : num) (cos sin : num -> num).
Implicit Types (s : @VectorPool num).

(** C1: on an empty pool (just constructed, or just cleared) every index
    makes [clear_index] throw the out-of-range error ['Index out of bound'];
    the guard throwing ['Pool is already cleared'] comes second and is never
    reached: no call of [clear_index] throws [PoolEmpty].  (Indices are
    integers here; only a NaN index would get past the first guard.) *)
Theorem clear_index_empty_throws_out_of_range :
  (forall (n : nat) index,
     clear_index index (construct zero n) = Throw IndexOutOfRange (construct zero n)) /\
  (forall s index,
     clear_index index (exec_state clear s) = Throw IndexOutOfRange (exec_state clear s)) /\
  (forall s s' index, clear_index index s <> Throw PoolEmpty s').
Proof.
  split; [| split].
  - intros n index. apply clear_index_count_zero. rewrite construct_eq. done.
  - intros s index. apply clear_index_count_zero. done.
  - intros s s' index. unfold clear_index, bind, get, throw, ret, set_count; cbn.
    destruct (Z.ltb_spec index 0); destruct (Z.leb_spec (_count s) index);
      cbn; try discriminate.
    destruct (Z.eqb_spec (_count s) 0); [lia |].
    unfold pool_get, deref, store, pool_set.
    repeat (case_match; cbn in *; try discriminate).
    all: intros Heq; simplify_eq.
Qed.

(** C2 (as amended): in every state reached from the constructor by calls
    other than [clear_index], every cell of the array, live or free, holds a
    vector whose [_pool_index] is the cell's position (free cells keep
    theirs, they are not unset); and from such a state one [clear_index]
    call leaves every live cell's [_pool_index] equal to its position. *)
Theorem cells_indexed_without_release (n : nat) (ops : list (@op num)) :
  Forall no_release ops ->
  slots_indexed (run_ops zero cos sin ops (construct zero n)) /\
  forall index,
    live_slots_indexed
      (run_op zero cos sin (OpClearIndex index) (run_ops zero cos sin ops (construct zero n))).
Proof.
  intros Hos.
  destruct (run_ops_indexed zero cos sin ops (construct zero n)
              (construct_wf zero n) (construct_indexed zero n) Hos)
    as [Hwf Hix].
  split; [done |]. intros index.
  destruct (run_op_release zero cos sin index _ Hwf) as (_ & _ & Hl). apply Hl. done.
Qed.


(** C4: [clear_index] on a live cell that is not the last one leaves the
    same vector object in that cell and in the old last cell
    [_count - 1]; the next [new(x, y)] hands out that object again, so
    afterwards the live cell [index] reads [(x, y)]. *)
Theorem clear_index_aliases_last_cell s index :
  pool_wf s -> 0 <= index -> index + 1 < _count s ->
  exists s1, clear_index index s = Ok tt s1 /\
    arr_get (_pool s1) index = arr_get (_pool s) (_count s - 1) /\
    arr_get (_pool s1) (_count s - 1) = arr_get (_pool s) (_count s - 1) /\
    forall x0 y0, exists r s2, new x0 y0 s1 = Ok r s2 /\
      arr_get (_pool s2) index = Some r /\ index < _count s2 /\
      read_slot s2 index = Some (x0, y0).
Proof.
  intros Hwf H0 H1.
  destruct (run_op_release zero cos sin index s Hwf) as (Hwf1 & _ & _).
  destruct (clear_index_inner s index Hwf H0 H1)
    as (ri & rl & vi & vl & Hri & Hrl & Hvi & Hvl & Hci).
  cbn in Hwf1. unfold exec_state in Hwf1. rewrite Hci in Hwf1.
  pose proof Hwf as [[Hc0 Hcs] Hrefs]. unfold size in Hcs.
  eexists; split; [exact Hci |]. cbn.
  rewrite !arr_get_nat by lia.
  rewrite list_lookup_insert_eq by lia. rewrite Hrl.
  split; [done |].
  rewrite list_lookup_insert_ne by lia. rewrite Hrl.
  split; [done |].
  intros x0 y0.
  destruct (new_spec _ x0 y0 Hwf1) as [(r & v & Hlt & Hr & Hv & Hn) | [Heq _]];
    cbn in *; [| unfold size in Heq; cbn in Heq; rewrite length_insert in Heq; lia].
  rewrite list_lookup_insert_ne in Hr by lia.
  rewrite Hrl in Hr. injection Hr as <-.
  eexists _, _; split; [exact Hn |]. cbn.
  rewrite arr_get_nat by lia. rewrite list_lookup_insert_eq by lia.
  split; [done | split; [lia |]].
  unfold read_slot; cbn. rewrite arr_get_nat by lia.
  rewrite list_lookup_insert_eq by lia.
  rewrite list_lookup_insert_eq; [done |].
  eapply lookup_lt_Some. exact Hv.
Qed.

(** C6: [new] calls that keep the counter within the array do not grow it;
    a [new] call made when every cell is live appends exactly one. *)
Theorem new_growth_by_one s :
  pool_wf s ->
  (forall l : list (num * num),
     _count s + Z.of_nat (length l) <= size s ->
     size (run_ops zero cos sin (map (fun p => OpNew p.1 p.2) l) s) = size s) /\
  (forall x0 y0, _count s = size s ->
     exists r s', new x0 y0 s = Ok r s' /\ size s' = size s + 1).
Proof.
  intros Hwf. split.
  - intros l. revert s Hwf. induction l as [| [a b] l IH]; intros s Hwf Hl; cbn; [done |].
    cbn in Hl.
    destruct (new_wf s a b Hwf) as (r1 & s1 & Hn1 & Hwf1 & _ & _).
    destruct (new_spec s a b Hwf) as [(r & v & Hlt & Hr & Hv & Hn) | [Heq _]]; [| lia].
    rewrite Hn in Hn1. injection Hn1 as <- <-.
    unfold exec_state. rewrite Hn.
    rewrite IH; [done | done |]. unfold size in *; cbn in *. lia.
  - intros x0 y0 Heq.
    destruct (new_spec s x0 y0 Hwf) as [(r & v & Hlt & _) | [_ Hn]]; [lia |].
    eexists _, _; split; [exact Hn |]. unfold size; cbn.
    rewrite length_app; cbn. lia.
Qed.

(** C7: [clear()] sets the counter to 0 and keeps the array and every
    vector. *)
Theorem clear_resets_count s :
  exists s', clear s = Ok tt s' /\ count s' = 0 /\ size s' = size s /\
    _pool s' = _pool s /\ heap s' = heap s /\
    forall i, read_slot s' i = read_slot s i.
Proof. eexists; split; [done |]. repeat split. Qed.

(** C8: [new(x, y)] increments the counter by one and returns a vector whose
    components are [(x, y)]. *)
Theorem new_sets_components s x0 y0 :
  pool_wf s ->
  exists r s', new x0 y0 s = Ok r s' /\ count s' = count s + 1 /\
    option_map (fun v => (x v, y v)) (heap s' !! r) = Some (x0, y0).
Proof.
  intros Hwf.
  destruct (new_spec s x0 y0 Hwf) as [(r & v & Hlt & Hr & Hv & Hn) | [Heq Hn]];
    eexists _, _; (split; [exact Hn |]); unfold count; cbn; (split; [done |]).
  - rewrite list_lookup_insert_eq; [done |]. eapply lookup_lt_Some. exact Hv.
  - rewrite list_lookup_middle by done. done.
Qed.

(** C9: [clear_index(index)] with [index < 0] or [index >= count] throws
    ['Index out of bound'] and leaves the pool as it was. *)
Theorem clear_index_out_of_bound_throws s index :
  index < 0 \/ count s <= index -> clear_index index s = Throw IndexOutOfRange s.
Proof. intros H. apply clear_index_out_of_range. exact H. Qed.

(** C10: along any sequence of calls from the constructor,
    [0 <= count <= size] holds after every call, and the size never
    decreases. *)
Theorem count_bounded_and_size_monotone (n : nat) (ops1 ops2 : list (@op num)) :
  let s1 := run_ops zero cos sin ops1 (construct zero n) in
  0 <= count s1 <= size s1 /\ size s1 <= size (run_ops zero cos sin ops2 s1).
Proof.
  cbn zeta.
  destruct (run_ops_wf zero cos sin ops1 _ (construct_wf zero n)) as [[Hb _] _].
  destruct (run_ops_wf zero cos sin ops2 _ (proj1 (run_ops_wf zero cos sin ops1 _
              (construct_wf zero n)))) as [_ Hm].
  split; [exact Hb | exact Hm].
Qed.

End Claims.

(** ** Further properties of the pool *)

Section ExtraLemmas.
Context {num : Type} (zero : num) (cos sin : num -> num).
Implicit Types (s : @VectorPool num).

Definition comps (v : @Vector2D num) : num * num := (x v, y v).

Lemma read_slot_alt s i :
  read_slot s i =
  match arr_get (_pool s) i with
  | Some r => option_map comps (heap s !! r)
  | None => None
  end.
Proof.
  unfold read_slot. destruct (arr_get (_pool s) i); [| done].
  destruct (heap s !! _); done.
Qed.

(** Two cells of an indexed array hold different objects. *)
Lemma indexed_cells_distinct s k1 k2 r :
  slots_indexed s -> _pool s !! k1 = Some r -> _pool s !! k2 = Some r -> k1 = k2.
Proof.
  intros Hs H1 H2.
  destruct (Hs _ _ H1) as (v1 & Hv1 & Hp1). destruct (Hs _ _ H2) as (v2 & Hv2 & Hp2).
  rewrite Hv1 in Hv2. injection Hv2 as ->. rewrite Hp1 in Hp2. injection Hp2. lia.
Qed.


Lemma arr_get_insert_eq {A} (l : list A) i a :
  0 <= i -> (Z.to_nat i < length l)%nat -> arr_get (<[Z.to_nat i := a]> l) i = Some a.
Proof.
  intros Hi Hl. rewrite arr_get_nat by done. apply list_lookup_insert_eq. done.
Qed.

Lemma arr_get_snoc_ne {A} (l : list A) k a :
  k <> Z.of_nat (length l) -> arr_get (l ++ [a]) k = arr_get l k.
Proof.
  intros Hk. unfold arr_get. destruct (Z.ltb_spec k 0); [done |].
  destruct (decide (Z.to_nat k < length l)%nat).
  - apply lookup_app_l. done.
  - rewrite lookup_ge_None_2 by (rewrite length_app; cbn; lia).
    rewrite lookup_ge_None_2 by lia. done.
Qed.

Lemma arr_get_lookup {A} (l : list A) k a :
  arr_get l k = Some a -> 0 <= k /\ l !! Z.to_nat k = Some a.
Proof. unfold arr_get. destruct (Z.ltb_spec k 0); [discriminate | done]. Qed.


(** What [new] does on an indexed pool: it hands out the object of cell
    [_count], gives it the components, and touches no other cell or object
    of the array. *)
Lemma new_fresh s x0 y0 :
  pool_wf s -> slots_indexed s ->
  exists r s1, new x0 y0 s = Ok r s1 /\
    arr_get (_pool s1) (_count s) = Some r /\
    option_map comps (heap s1 !! r) = Some (x0, y0) /\
    _count s1 = _count s + 1 /\
    size s1 = Z.max (size s) (_count s + 1) /\
    (forall k, k <> _count s -> arr_get (_pool s1) k = arr_get (_pool s) k) /\
    (forall k r', k <> _count s -> arr_get (_pool s) k = Some r' ->
       r' <> r /\ heap s1 !! r' = heap s !! r').
Proof.
  intros Hwf Hs. pose proof Hwf as [[Hc0 Hcs] Hrefs]. unfold size in *.
  destruct (new_spec s x0 y0 Hwf) as [(r & v & Hlt & Hr & Hv & Hn) | [Heq Hn]];
    eexists _, _; (split; [exact Hn |]); cbn.
  - split; [rewrite arr_get_nat by lia; done |].
    split; [rewrite list_lookup_insert_eq; [done | eapply lookup_lt_Some; exact Hv] |].
    split; [done |]. split; [unfold size in *; lia |]. split; [done |].
    intros k r' Hk Hr'. apply arr_get_lookup in Hr' as [Hk0 Hr'].
    assert (r' <> r).
    { intros ->. apply Hk. pose proof (indexed_cells_distinct s _ _ _ Hs Hr Hr'). lia. }
    split; [done |]. apply list_lookup_insert_ne. done.
  - unfold size in Heq.
    split; [rewrite arr_get_nat by lia; rewrite list_lookup_middle by lia; done |].
    split; [rewrite list_lookup_middle by done; done |].
    split; [done |]. split; [rewrite length_app; cbn; lia |].
    split; [intros k Hk; apply arr_get_snoc_ne; lia |].
    intros k r' Hk Hr'. apply arr_get_lookup in Hr' as [Hk0 Hr'].
    pose proof (Forall_lookup_1 _ _ _ _ Hrefs Hr') as Hlt. cbn in Hlt.
    split; [lia |]. apply lookup_app_l. done.
Qed.

End ExtraLemmas.

Section ExtraLemmas2.
Context {num : Type} (zero : num) (cos sin : num -> num).
Implicit Types (s : @VectorPool num).

Lemma new_get s x0 y0 :
  pool_wf s ->
  exists r s1 w, new x0 y0 s = Ok r s1 /\
    arr_get (_pool s1) (_count s) = Some r /\ heap s1 !! r = Some w /\
    _count s1 = _count s + 1 /\ size s1 = Z.max (size s) (_count s + 1) /\
    pool_wf s1 /\ (_count s < size s -> _pool s1 = _pool s).
Proof.
  intros Hwf. pose proof Hwf as [[Hc0 Hcs] Hrefs].
  destruct (new_wf s x0 y0 Hwf) as (r1 & s1' & Hn1 & Hwf1 & _).
  destruct (new_spec s x0 y0 Hwf) as [(r & v & Hlt & Hr & Hv & Hn) | [Heq Hn]];
    rewrite Hn in Hn1; injection Hn1 as <- <-; unfold size in *;
    eexists _, _, _; (split; [exact Hn |]); cbn.
  - split; [rewrite arr_get_nat by lia; done |].
    split; [rewrite list_lookup_insert_eq; [done | eapply lookup_lt_Some; exact Hv] |].
    split; [done |]. split; [lia | split; [exact Hwf1 | done]].
  - split; [rewrite arr_get_nat by lia; rewrite list_lookup_middle by lia; done |].
    split; [rewrite list_lookup_middle by done; done |].
    split; [done |]. split; [rewrite length_app; cbn; lia |].
    split; [exact Hwf1 | lia].
Qed.

Lemma vset_ok s r w a b :
  heap s !! r = Some w ->
  vset r a b s = Ok r (mkVectorPool (<[r := mkVector2D a b (_pool_index w)]> (heap s))
                                    (_pool s) (_count s)).
Proof. intros Hw. unfold vset, bind, deref, store, ret; cbn -[lookup insert]. rewrite Hw. done. Qed.

Lemma new_then_vset_reads s a b :
  pool_wf s ->
  exists r s', bind (new zero zero) (fun r => vset r a b) s = Ok r s' /\
    count s' = count s + 1 /\ arr_get (_pool s') (_count s) = Some r /\
    read_slot s' (_count s) = Some (a, b).
Proof.
  intros Hwf.
  destruct (new_get s zero zero Hwf) as (r & s1 & w & Hn & Hr & Hw & Hc & _ & _ & _).
  eexists _, _. unfold bind at 1. rewrite Hn. rewrite (vset_ok _ _ _ _ _ Hw).
  split; [done |]. unfold count; cbn. split; [done |]. split; [done |].
  unfold read_slot; cbn. rewrite Hr.
  rewrite list_lookup_insert_eq; [done | eapply lookup_lt_Some; exact Hw].
Qed.

End ExtraLemmas2.

Section Extras.
Context {num : Type} (zero : num) (cos sin : num -> num).
Implicit Types (s : @VectorPool num).

(** X1: [new VectorPool(n)] has [size] [n] and [count] 0; cell [i] holds a
    vector (0, 0) whose [_pool_index] is [i], and no two cells hold the same
    object. *)
Theorem construct_cells (n : nat) :
  size (construct zero n) = Z.of_nat n /\ count (construct zero n) = 0 /\
  (forall i, read_slot (construct zero n) i =
             if (0 <=? i) && (i <? Z.of_nat n) then Some (zero, zero) else None) /\
  (forall i, slot_index (construct zero n) i =
             if (0 <=? i) && (i <? Z.of_nat n) then Some (Some i) else None) /\
  NoDup (_pool (construct zero n)).
Proof.
  rewrite construct_eq. unfold size, count; cbn. rewrite length_seq.
  split; [done |]. split; [done |].
  split; [| split]; [intros i .. | apply NoDup_seq];
    unfold read_slot, slot_index, arr_get; cbn;
    (destruct (Z.leb_spec 0 i); destruct (Z.ltb_spec i 0); try lia; cbn;
     [ destruct (Z.ltb_spec i (Z.of_nat n)); cbn;
       [ rewrite lookup_seq_lt by lia; cbn;
         rewrite list_lookup_fmap, lookup_seq_lt by lia; cbn; try done;
         unfold new_Vector2D; cbn; f_equal; f_equal; lia
       | rewrite lookup_seq_ge by lia; done ]
     | done ]).
Qed.

(** X2: on a pool within its bounds, [new] returns the object now in cell
    [count] (the old count); the array grows only when every cell was live,
    so the new size is [max(size, count + 1)]. *)
Theorem new_hands_out_cell_at_count s x0 y0 :
  pool_wf s ->
  exists r s', new x0 y0 s = Ok r s' /\ arr_get (_pool s') (count s) = Some r /\
    size s' = Z.max (size s) (count s + 1).
Proof.
  intros Hwf.
  destruct (new_get s x0 y0 Hwf) as (r & s1 & w & Hn & Hr & _ & _ & Hsz & _ & _).
  eexists _, _. split; [exact Hn |]. split; [exact Hr | exact Hsz].
Qed.

(** X3: on a pool whose cells are indexed, [new] changes what no other cell
    reads: every cell other than [count] reads the same components before
    and after. *)
Theorem new_leaves_other_cells s x0 y0 :
  pool_wf s -> slots_indexed s ->
  exists r s', new x0 y0 s = Ok r s' /\
    forall i, i <> count s -> read_slot s' i = read_slot s i.
Proof.
  intros Hwf Hs. unfold count.
  destruct (new_fresh s x0 y0 Hwf Hs) as (r & s1 & Hn & _ & _ & _ & _ & Hp & Hh).
  eexists _, _. split; [exact Hn |]. intros i Hi.
  rewrite !read_slot_alt. rewrite (Hp i Hi).
  destruct (arr_get (_pool s) i) as [r' |] eqn:Hr'; [| done].
  destruct (Hh i r' Hi Hr') as [_ ->]. done.
Qed.


(** X5: [fromAngle(angle)] increments the count and returns the vector of
    cell [count], which reads [(cos angle, sin angle)]. *)
Theorem fromAngle_reads_cos_sin s angle :
  pool_wf s ->
  exists r s', fromAngle zero cos sin angle s = Ok r s' /\ count s' = count s + 1 /\
    arr_get (_pool s') (count s) = Some r /\
    read_slot s' (count s) = Some (cos angle, sin angle).
Proof. intros Hwf. exact (new_then_vset_reads zero s (cos angle) (sin angle) Hwf). Qed.

(** X6: [fromObservablePoint(point)] increments the count and returns the
    vector of cell [count], which reads the point's [x], [y]. *)
Theorem fromObservablePoint_reads_point s (point : num * num) :
  pool_wf s ->
  exists r s', fromObservablePoint zero point s = Ok r s' /\ count s' = count s + 1 /\
    arr_get (_pool s') (count s) = Some r /\
    read_slot s' (count s) = Some point.
Proof.
  intros Hwf. destruct point as [px py].
  exact (new_then_vset_reads zero s px py Hwf).
Qed.

(** X7: [clear_index] of the last live cell only decrements the count: the
    array and every vector are left as they were. *)
Theorem clear_index_last_cell_only_decrements s index :
  0 <= index -> index + 1 = count s ->
  exists s', clear_index index s = Ok tt s' /\ count s' = count s - 1 /\
    _pool s' = _pool s /\ heap s' = heap s.
Proof.
  intros H0 H1. eexists. split; [apply clear_index_last; done |]. done.
Qed.


(** X9: on a pool whose cells are indexed, [clear_index] of a live cell that
    is not the last one unsets the [_pool_index] of the vector it removes
    and sets that of cell [index] to [index]. *)
Theorem clear_index_inner_indices s index ri :
  pool_wf s -> slots_indexed s -> 0 <= index -> index + 1 < count s ->
  arr_get (_pool s) index = Some ri ->
  exists s', clear_index index s = Ok tt s' /\
    option_map _pool_index (heap s' !! ri) = Some None /\
    slot_index s' index = Some (Some index).
Proof.
  intros Hwf Hs H0 H1 Hri0. pose proof Hwf as [[Hc0 Hcs] Hrefs]. unfold size, count in *.
  destruct (clear_index_inner s index Hwf H0 H1)
    as (ri' & rl & vi & vl & Hri & Hrl & Hvi & Hvl & Hci).
  rewrite arr_get_nat in Hri0 by lia. rewrite Hri in Hri0. injection Hri0 as <-.
  assert (Hne : ri' <> rl).
  { intros ->. pose proof (indexed_cells_distinct s _ _ _ Hs Hri Hrl). lia. }
  eexists. split; [exact Hci |]. cbn.
  rewrite list_lookup_insert_ne by done.
  rewrite list_lookup_insert_eq by (eapply lookup_lt_Some; exact Hvi).
  split; [done |].
  unfold slot_index; cbn. rewrite arr_get_insert_eq by lia.
  rewrite list_lookup_insert_eq; [done |].
  eapply lookup_lt_Some. exact Hvl.
Qed.

(** X10: on a pool within its bounds, the only exception [clear_index]
    throws is ['Index out of bound'], for an index outside [[0, count)],
    and it leaves the pool as it was. *)
Theorem clear_index_only_throws_out_of_range s index e s' :
  pool_wf s -> clear_index index s = Throw e s' ->
  e = IndexOutOfRange /\ s' = s /\ (index < 0 \/ count s <= index).
Proof.
  intros Hwf Hthrow. unfold count.
  destruct (decide (index < 0 \/ _count s <= index)) as [Hout | Hin].
  { rewrite clear_index_out_of_range in Hthrow by done. injection Hthrow as <- <-. done. }
  destruct (decide (index + 1 = _count s)) as [Hlast | Hinner].
  { rewrite clear_index_last in Hthrow by lia. discriminate. }
  destruct (clear_index_inner s index Hwf) as (ri & rl & vi & vl & _ & _ & _ & _ & Hci);
    [lia | lia |].
  rewrite Hci in Hthrow. discriminate.
Qed.

(** X11: as long as [clear_index] is never called, no two cells of the array
    hold the same vector object. *)
Theorem distinct_cells_without_release (n : nat) (ops : list (@op num)) :
  Forall no_release ops -> NoDup (_pool (run_ops zero cos sin ops (construct zero n))).
Proof.
  intros Hos.
  destruct (run_ops_indexed zero cos sin ops (construct zero n)
              (construct_wf zero n) (construct_indexed zero n) Hos) as [_ Hix].
  apply NoDup_alt. intros i j r Hi Hj. exact (indexed_cells_distinct _ _ _ _ Hix Hi Hj).
Qed.

(** X12: releasing the last live vector and asking for a new one hands out
    the same object again, with no growth and the count restored. *)
Theorem release_last_then_new_reuses s x0 y0 :
  pool_wf s -> 0 < count s ->
  exists r s1 s2, arr_get (_pool s) (count s - 1) = Some r /\
    clear_index (count s - 1) s = Ok tt s1 /\ new x0 y0 s1 = Ok r s2 /\
    size s2 = size s /\ count s2 = count s.
Proof.
  intros Hwf Hc. pose proof Hwf as [[Hc0 Hcs] Hrefs]. unfold count in *.
  pose proof (clear_index_last s (_count s - 1)) as Hcl.
  assert (Hwf1 : pool_wf (mkVectorPool (heap s) (_pool s) (_count s - 1))).
  { split; [unfold size in *; cbn; lia | exact Hrefs]. }
  destruct (new_get _ x0 y0 Hwf1) as (r & s2 & w & Hn & Hr & _ & Hc2 & Hsz & _ & Hp).
  cbn in Hr, Hc2, Hsz, Hp. unfold size in Hsz, Hcs, Hp; cbn in Hsz, Hp.
  rewrite Hp in Hr by lia.
  exists r, (mkVectorPool (heap s) (_pool s) (_count s - 1)), s2.
  split; [exact Hr |]. split; [apply Hcl; lia |]. split; [exact Hn |].
  split; [unfold size; lia | lia].
Qed.

(** X13: after [clear()], on a pool with at least one cell, [new] reuses
    the object of cell 0 without growing the array, and the count is 1. *)
Theorem clear_then_new_reuses_first_cell s x0 y0 :
  pool_wf s -> 0 < size s ->
  exists r s', new x0 y0 (exec_state clear s) = Ok r s' /\
    arr_get (_pool s) 0 = Some r /\ size s' = size s /\ count s' = 1.
Proof.
  intros Hwf Hsz. pose proof Hwf as [_ Hrefs].
  assert (Hwf1 : pool_wf (exec_state clear s)).
  { split; [unfold size in *; cbn; lia | exact Hrefs]. }
  destruct (new_get _ x0 y0 Hwf1) as (r & s2 & w & Hn & Hr & _ & Hc2 & Hsz2 & _ & Hp).
  cbn in Hr, Hc2, Hsz2, Hp. unfold size in *; cbn in Hsz2, Hp.
  rewrite Hp in Hr by lia.
  eexists _, _. split; [exact Hn |]. split; [exact Hr |].
  split; [lia | unfold count; lia].
Qed.

End Extras.

(** ** Concrete runs *)

(** C2, counterexample: right after [new VectorPool(1)] the free cell 0
    holds a vector whose [_pool_index] is 0, not [undefined]. *)
Lemma free_slot_index_not_unset : ~ free_slots_unset (construct (num:=Z) 0 1).
Proof.
  intros H. destruct (H 0%nat 0%nat) as (v & Hv & Hpi); [cbn; lia | reflexivity |].
  cbn in Hv. injection Hv as <-. discriminate.
Qed.

Lemma cells_indexed_without_release_witness :
  Forall no_release [OpNew (num:=Z) 1 1] /\
  (slots_indexed (run_ops 0 Run.zcos Run.zsin [OpNew 1 1] (construct 0 2)) /\
   forall index,
     live_slots_indexed (run_op 0 Run.zcos Run.zsin (OpClearIndex index)
                           (run_ops 0 Run.zcos Run.zsin [OpNew 1 1] (construct 0 2)))).
Proof.
  split; [repeat constructor |].
  apply (cells_indexed_without_release 0 Run.zcos Run.zsin 2 [OpNew 1 1]).
  repeat constructor.
Defined.

(** C3: [clear_index(0)] on A, B, C leaves C in cells 0 and 2 and drops A
    from the array (no swap); after [new(4,4)] cells 0 and 2 hold the same
    object, and a second [clear_index(0)] leaves the [_pool_index] of the
    vector moved out of cell 0 at 0 instead of clearing it. *)
Lemma clear_index_not_a_swap :
  _pool Run.released = [2; 1; 2]%nat /\
  arr_get (_pool Run.refilled) 0 = Some 2%nat /\
  arr_get (_pool Run.refilled) 2 = Some 2%nat /\
  exists s', clear_index 0 Run.refilled = Ok tt s' /\
    option_map _pool_index (heap s' !! 2%nat) = Some (Some 0).
Proof.
  split; [reflexivity |]. split; [reflexivity |]. split; [reflexivity |].
  eexists; split; reflexivity.
Qed.

Lemma clear_index_aliases_last_cell_witness :
  pool_wf Run.three /\ 0 <= 0 /\ 0 + 1 < _count Run.three /\
  exists s1, clear_index 0 Run.three = Ok tt s1 /\
    arr_get (_pool s1) 0 = arr_get (_pool Run.three) (_count Run.three - 1) /\
    arr_get (_pool s1) (_count Run.three - 1) = arr_get (_pool Run.three) (_count Run.three - 1) /\
    forall x0 y0, exists r s2, new x0 y0 s1 = Ok r s2 /\
      arr_get (_pool s2) 0 = Some r /\ 0 < _count s2 /\
      read_slot s2 0 = Some (x0, y0).
Proof.
  assert (Hwf : pool_wf Run.three).
  { split; [vm_compute; split; discriminate |]. vm_compute. repeat constructor. }
  split; [exact Hwf |]. split; [lia |]. split; [vm_compute; reflexivity |].
  apply (clear_index_aliases_last_cell 0 Run.zcos Run.zsin Run.three 0 Hwf);
    [lia | vm_compute; reflexivity].
Defined.

(** C5: with C in cells 0 and 2 after [clear_index(0)], [clone] of the
    live vector in cell 0 (components (3, 3)) returns that very object and
    sets its components to (0, 0). *)
Lemma clone_after_release_returns_source :
  read_slot Run.released 0 = Some (3, 3) /\ 0 < _count Run.released /\
  arr_get (_pool Run.released) 0 = Some 2%nat /\
  exists s', clone 0 2%nat Run.released = Ok 2%nat s' /\
    read_slot s' 0 = Some (0, 0).
Proof.
  split; [reflexivity |]. split; [vm_compute; reflexivity |].
  split; [reflexivity |]. eexists; split; reflexivity.
Qed.

Lemma new_growth_by_one_witness :
  pool_wf (construct (num:=Z) 0 2) /\
  ((forall l : list (Z * Z),
     _count (construct 0 2) + Z.of_nat (length l) <= size (construct 0 2) ->
     size (run_ops 0 Run.zcos Run.zsin (map (fun p => OpNew p.1 p.2) l) (construct 0 2))
       = size (construct 0 2)) /\
   (forall x0 y0, _count (construct 0 2) = size (construct 0 2) ->
     exists r s', new x0 y0 (construct 0 2) = Ok r s' /\ size s' = size (construct 0 2) + 1)).
Proof.
  assert (Hwf : pool_wf (construct (num:=Z) 0 2)).
  { split; [vm_compute; split; discriminate |]. vm_compute. repeat constructor. }
  split; [exact Hwf |].
  apply (new_growth_by_one 0 Run.zcos Run.zsin (construct 0 2) Hwf).
Defined.

Lemma new_sets_components_witness :
  pool_wf Run.three /\
  exists r s', new 5 6 Run.three = Ok r s' /\ count s' = count Run.three + 1 /\
    option_map (fun v => (x v, y v)) (heap s' !! r) = Some (5, 6).
Proof.
  assert (Hwf : pool_wf Run.three).
  { split; [vm_compute; split; discriminate |]. vm_compute. repeat constructor. }
  split; [exact Hwf |].
  apply (new_sets_components Run.three 5 6 Hwf).
Defined.

Lemma clear_index_out_of_bound_throws_witness :
  (-1 < 0 \/ count Run.three <= -1) /\
  clear_index (-1) Run.three = Throw IndexOutOfRange Run.three.
Proof.
  split; [left; lia |].
  apply (clear_index_out_of_bound_throws Run.three (-1)). left; lia.
Defined.

(** Discharging [pool_wf] and [slots_indexed] on a concrete state. *)
Ltac solve_wf := split; [vm_compute; split; discriminate | vm_compute; repeat constructor].
Ltac solve_indexed :=
  let k := fresh "k" in let r := fresh "r" in let Hk := fresh "Hk" in
  intros k r Hk; destruct k as [|[|[|k]]]; vm_compute in Hk;
  first [ discriminate | injection Hk as <-; eexists; split; reflexivity ].

Lemma new_hands_out_cell_at_count_witness :
  pool_wf Run.three /\
  exists r s', new 7 8 Run.three = Ok r s' /\ arr_get (_pool s') (count Run.three) = Some r /\
    size s' = Z.max (size Run.three) (count Run.three + 1).
Proof.
  assert (Hwf : pool_wf Run.three) by solve_wf.
  split; [exact Hwf |]. apply (new_hands_out_cell_at_count Run.three 7 8 Hwf).
Defined.

Lemma new_leaves_other_cells_witness :
  pool_wf Run.three /\ slots_indexed Run.three /\
  exists r s', new 7 8 Run.three = Ok r s' /\
    forall i, i <> count Run.three -> read_slot s' i = read_slot Run.three i.
Proof.
  assert (Hwf : pool_wf Run.three) by solve_wf.
  assert (Hs : slots_indexed Run.three) by solve_indexed.
  split; [exact Hwf |]. split; [exact Hs |].
  apply (new_leaves_other_cells Run.three 7 8 Hwf Hs).
Defined.


Lemma fromAngle_reads_cos_sin_witness :
  pool_wf Run.three /\
  exists r s', fromAngle 0 Run.zcos Run.zsin 0 Run.three = Ok r s' /\
    count s' = count Run.three + 1 /\ arr_get (_pool s') (count Run.three) = Some r /\
    read_slot s' (count Run.three) = Some (Run.zcos 0, Run.zsin 0).
Proof.
  assert (Hwf : pool_wf Run.three) by solve_wf.
  split; [exact Hwf |].
  apply (fromAngle_reads_cos_sin 0 Run.zcos Run.zsin Run.three 0 Hwf).
Defined.

Lemma fromObservablePoint_reads_point_witness :
  pool_wf Run.three /\
  exists r s', fromObservablePoint 0 (1, 2) Run.three = Ok r s' /\
    count s' = count Run.three + 1 /\ arr_get (_pool s') (count Run.three) = Some r /\
    read_slot s' (count Run.three) = Some (1, 2).
Proof.
  assert (Hwf : pool_wf Run.three) by solve_wf.
  split; [exact Hwf |].
  apply (fromObservablePoint_reads_point 0 Run.three (1, 2) Hwf).
Defined.

Lemma clear_index_last_cell_only_decrements_witness :
  0 <= 2 /\ 2 + 1 = count Run.three /\
  exists s', clear_index 2 Run.three = Ok tt s' /\ count s' = count Run.three - 1 /\
    _pool s' = _pool Run.three /\ heap s' = heap Run.three.
Proof.
  split; [lia |]. split; [vm_compute; reflexivity |].
  apply (clear_index_last_cell_only_decrements Run.three 2); [lia | vm_compute; reflexivity].
Defined.


Lemma clear_index_inner_indices_witness :
  pool_wf Run.three /\ slots_indexed Run.three /\ 0 <= 0 /\ 0 + 1 < count Run.three /\
  arr_get (_pool Run.three) 0 = Some 0%nat /\
  exists s', clear_index 0 Run.three = Ok tt s' /\
    option_map _pool_index (heap s' !! 0%nat) = Some None /\
    slot_index s' 0 = Some (Some 0).
Proof.
  assert (Hwf : pool_wf Run.three) by solve_wf.
  assert (Hs : slots_indexed Run.three) by solve_indexed.
  split; [exact Hwf |]. split; [exact Hs |]. split; [lia |].
  split; [vm_compute; reflexivity |]. split; [reflexivity |].
  apply (clear_index_inner_indices Run.three 0 0%nat Hwf Hs);
    [lia | vm_compute; reflexivity | reflexivity].
Defined.

Lemma clear_index_only_throws_out_of_range_witness :
  pool_wf Run.three /\ clear_index 5 Run.three = Throw IndexOutOfRange Run.three /\
  (IndexOutOfRange = IndexOutOfRange /\ Run.three = Run.three /\
   (5 < 0 \/ count Run.three <= 5)).
Proof.
  assert (Hwf : pool_wf Run.three) by solve_wf.
  assert (Ht : clear_index 5 Run.three = Throw IndexOutOfRange Run.three)
    by (vm_compute; reflexivity).
  split; [exact Hwf |]. split; [exact Ht |].
  apply (clear_index_only_throws_out_of_range Run.three 5 IndexOutOfRange Run.three Hwf Ht).
Defined.

Lemma distinct_cells_without_release_witness :
  Forall no_release [OpNew (num:=Z) 1 1] /\
  NoDup (_pool (run_ops 0 Run.zcos Run.zsin [OpNew 1 1] (construct 0 2))).
Proof.
  assert (Ho : Forall no_release [OpNew (num:=Z) 1 1]) by repeat constructor.
  split; [exact Ho |].
  apply (distinct_cells_without_release 0 Run.zcos Run.zsin 2 [OpNew 1 1] Ho).
Defined.

Lemma release_last_then_new_reuses_witness :
  pool_wf Run.three /\ 0 < count Run.three /\
  exists r s1 s2, arr_get (_pool Run.three) (count Run.three - 1) = Some r /\
    clear_index (count Run.three - 1) Run.three = Ok tt s1 /\ new 7 8 s1 = Ok r s2 /\
    size s2 = size Run.three /\ count s2 = count Run.three.
Proof.
  assert (Hwf : pool_wf Run.three) by solve_wf.
  assert (Hc : 0 < count Run.three) by (vm_compute; reflexivity).
  split; [exact Hwf |]. split; [exact Hc |].
  apply (release_last_then_new_reuses Run.three 7 8 Hwf Hc).
Defined.

Lemma clear_then_new_reuses_first_cell_witness :
  pool_wf Run.three /\ 0 < size Run.three /\
  exists r s', new 7 8 (exec_state clear Run.three) = Ok r s' /\
    arr_get (_pool Run.three) 0 = Some r /\ size s' = size Run.three /\ count s' = 1.
Proof.
  assert (Hwf : pool_wf Run.three) by solve_wf.
  assert (Hz : 0 < size Run.three) by (vm_compute; reflexivity).
  split; [exact Hwf |]. split; [exact Hz |].
  apply (clear_then_new_reuses_first_cell Run.three 7 8 Hwf Hz).
Defined.
